(** * Eveyka media flows: upload and process-and-upload

    A shallow embedding of the three TypeScript flows

      - [src/ai/flows/upload-media-flow.ts]            (module [Named])
      - the second, unnamed copy of the upload flow     (module [Unnamed])
      - [src/ai/flows/process-and-upload-media-flow.ts] (module [Process])

    The flows are short sequential scripts that call two external services
    (the ImageKit upload endpoint and a generative-model prompt), write to the
    console and throw JavaScript errors.  They are modelled in a small
    reader/writer/exception monad: the reader part is the outside world (what
    the services answer), the writer part is the list of external
    interactions a run performs, in order. *)

From Stdlib Require Import String List Bool ZArith Lia.
From Stdlib Require Import DecimalString DecimalPos DecimalZ.
Import ListNotations.
Local Open Scope string_scope.

(** ** JavaScript values used by the flows *)

(** A property that may hold a string or be [undefined].  Truthiness is the
    one of JavaScript: [undefined] and the empty string are falsy. *)
Definition truthy (v : option string) : bool :=
  match v with
  | Some s => negb (s =? "")
  | None => false
  end.

(** [a || b] on such values. *)
Definition js_or (a b : option string) : option string :=
  if truthy a then a else b.

(** [a || d] where [d] is a string literal: always a string. *)
Definition or_else (a : option string) (d : string) : string :=
  match a with
  | Some s => if s =? "" then d else s
  | None => d
  end.

(** Truthiness of an optional boolean ([if (input.isVideo)]). *)
Definition truthy_flag (v : option bool) : bool :=
  match v with
  | Some b => b
  | None => false
  end.

(** Template-literal rendering of an integer, as in [`media-${Date.now()}`]. *)
Definition show_int (n : Z) : string := NilZero.string_of_int (Z.to_int n).

(** ** The ImageKit client *)

Module ImageKit.

Record Config := {
  publicKey : string;
  privateKey : string;
  urlEndpoint : string
}.

(** The two shapes of [uploadOptions.transformation] found in the sources. *)
Record StepOptions := { format : string; quality : Z }.
Record Step := { name : string; options : StepOptions }.

Inductive Transformation :=
| Steps (steps : list Step)      (* [{ name, options: { format, quality } }] *)
| Pre (pre : string).            (* { pre: "..." } *)

Record UploadOptions := {
  file : string;
  fileName : string;
  useUniqueFileName : bool;
  transformation : option Transformation
}.

(** [response.metadata], read through [(response.metadata as any)?.thumbnailUrl]. *)
Record Metadata := { metaThumbnailUrl : option string }.

(** The fields of the response the flows read; [other] stands for the rest
    of the payload (file id, size, ...). *)
Record UploadResponse := {
  url : option string;
  thumbnailUrl : option string;
  metadata : option Metadata;
  other : string
}.

(** [(response.metadata as any)?.thumbnailUrl] *)
Definition metadata_thumbnailUrl (r : UploadResponse) : option string :=
  match metadata r with
  | Some m => metaThumbnailUrl m
  | None => None
  end.

End ImageKit.

(** What an external call rejects with: a value of type [any], of which the
    flows read [.message]; [body] stands for everything else it carries. *)
Record ServiceError := {
  serviceMessage : option string;
  body : string
}.

(** ** The color-extraction prompt *)

Module ColorExtract.

(** [ColorExtractInputSchema] *)
Record Input := { photoDataUri : string }.

(** [ColorExtractOutputSchema] *)
Record Output := { dominantColor : string }.

(** What the prompt resolves to; [output] may be null, hence
    [colorResult.output?.dominantColor]. *)
Record Result := { output : option Output }.

(** [colorResult.output?.dominantColor] *)
Definition output_dominantColor (r : Result) : option string :=
  match output r with
  | Some o => Some (dominantColor o)
  | None => None
  end.

End ColorExtract.

(** ** Thrown values, console and events *)

Inductive Thrown :=
| JsError (message : string)          (* [new Error(message)] *)
| Rejected (e : ServiceError)         (* the rejection of an external call *)
| SchemaViolation (flow : string) (message : string).
                                      (* genkit's error: a flow's input or output failed its schema *)

(** [error.message] *)
Definition message_of (e : Thrown) : option string :=
  match e with
  | JsError m => Some m
  | Rejected e => serviceMessage e
  | SchemaViolation _ m => Some m
  end.

Inductive Logged :=
| LogResponse (r : ImageKit.UploadResponse)   (* JSON.stringify(response, null, 2) *)
| LogThrown (e : Thrown).

Inductive Event :=
| EvUpload (config : ImageKit.Config) (opts : ImageKit.UploadOptions)
| EvColorExtract (arg : ColorExtract.Input)
| EvConsoleError (label : string) (what : Logged)
| EvConsoleWarn (label : string) (what : Logged).

(** ** The outside world *)

Record World := {
  (** zod's [z.string().url()] *)
  is_url : string -> bool;
  (** the message genkit gives to the schema error of a flow *)
  schema_message : string -> string;
  (** [Date.now()] *)
  Date_now : Z;
  (** [imagekit.upload(options)] for a client built from [config] *)
  imagekit_upload :
    ImageKit.Config -> ImageKit.UploadOptions -> ServiceError + ImageKit.UploadResponse;
  (** the genkit prompt [colorExtractPromptInternal] *)
  colorExtractPrompt_answer : ColorExtract.Input -> ServiceError + ColorExtract.Result
}.

(** The same world with another color model. *)
Definition with_color_model (w : World)
    (cp : ColorExtract.Input -> ServiceError + ColorExtract.Result) : World :=
  {| is_url := is_url w;
     schema_message := schema_message w;
     Date_now := Date_now w;
     imagekit_upload := imagekit_upload w;
     colorExtractPrompt_answer := cp |}.

(** ** The monad of the flows *)

Inductive Outcome (A : Type) :=
| Returned (a : A)
| Threw (e : Thrown).
Arguments Returned {A} a.
Arguments Threw {A} e.

Definition M (A : Type) : Type := World -> list Event * Outcome A.

Definition ret {A} (a : A) : M A := fun _ => ([], Returned a).

Definition throw {A} (e : Thrown) : M A := fun _ => ([], Threw e).

Definition bind {A B} (m : M A) (k : A -> M B) : M B :=
  fun w =>
    match m w with
    | (l, Returned a) => let (l', r) := k a w in ((l ++ l')%list, r)
    | (l, Threw e) => (l, Threw e)
    end.

(** [try { m } catch (error) { h error }] *)
Definition try_catch {A} (m : M A) (h : Thrown -> M A) : M A :=
  fun w =>
    match m w with
    | (l, Returned a) => (l, Returned a)
    | (l, Threw e) => let (l', r) := h e w in ((l ++ l')%list, r)
    end.

Definition emit (ev : Event) : M unit := fun _ => ([ev], Returned tt).

Definition ask {A} (f : World -> A) : M A := fun w => ([], Returned (f w)).

(** An awaited external call: the call is recorded, then it resolves or rejects. *)
Definition await_call {A} (ev : Event) (answer : World -> ServiceError + A) : M A :=
  fun w =>
    match answer w with
    | inr a => ([ev], Returned a)
    | inl e => ([ev], Threw (Rejected e))
    end.

Declare Scope flow_scope.
Delimit Scope flow_scope with flow.
Notation "x <- m ;; k" := (bind m (fun x => k))
  (at level 61, m at next level, right associativity) : flow_scope.
Notation "m ;;; k" := (bind m (fun _ => k))
  (at level 61, right associativity) : flow_scope.
Local Open Scope flow_scope.

Definition console_error (label : string) (what : Logged) : M unit :=
  emit (EvConsoleError label what).

Definition console_warn (label : string) (what : Logged) : M unit :=
  emit (EvConsoleWarn label what).

(** The events and the outcome of a run. *)
Definition events {A} (m : M A) (w : World) : list Event := fst (m w).
Definition outcome {A} (m : M A) (w : World) : Outcome A := snd (m w).

Definition schema_violation {A} (flow : string) : M A :=
  fun w => ([], Threw (SchemaViolation flow (schema_message w flow))).

(** [ai.defineFlow({ name, inputSchema, outputSchema }, handler)]: the input is
    parsed with the input schema, the handler runs, and what it returns is
    parsed with the output schema. *)
Definition defineFlow {I O} (flow : string)
    (inputSchema : I -> bool) (outputSchema : World -> O -> bool)
    (handler : I -> M O) : I -> M O :=
  fun input =>
    if inputSchema input then
      out <- handler input ;;
      ok <- ask (fun w => outputSchema w out) ;;
      if ok then ret out else schema_violation flow
    else schema_violation flow.

(** ** The upload flow

    Both copies of the upload flow declare the same input and output schemas. *)

Module UploadMedia.

(** [UploadMediaInputSchema] *)
Record UploadMediaInput := {
  mediaDataUri : string;
  isVideo : option bool
}.

(** [UploadMediaOutputSchema]; a property the handler sets to [undefined] is [None]. *)
Record UploadMediaOutput := {
  mediaUrl : option string;
  thumbnailUrl : option string
}.

(** A string and an optional boolean: every value of the record parses. *)
Definition UploadMediaInputSchema (_ : UploadMediaInput) : bool := true.

(** [mediaUrl: z.string().url()], [thumbnailUrl: z.string().url().optional()] *)
Definition UploadMediaOutputSchema (w : World) (o : UploadMediaOutput) : bool :=
  match mediaUrl o with
  | Some u => is_url w u
  | None => false
  end
  &&
  match thumbnailUrl o with
  | Some t => is_url w t
  | None => true
  end.

(** [new ImageKit({ publicKey, privateKey, urlEndpoint })], the same in both copies. *)
Definition imagekit : ImageKit.Config :=
  {| ImageKit.publicKey := "public_3BzpFL5pqk2Qn42+6s7TAa0gFqc=";
     ImageKit.privateKey := "private_gDgJMY3xa9l+pkjMH6r2OIg3UfA=";
     ImageKit.urlEndpoint := "https://ik.imagekit.io/oco6vyb1z" |}.

(** [await imagekit.upload(uploadOptions)] *)
Definition upload (uploadOptions : ImageKit.UploadOptions) : M ImageKit.UploadResponse :=
  await_call (EvUpload imagekit uploadOptions)
             (fun w => imagekit_upload w imagekit uploadOptions).

(** [uploadOptions] before the video branch. *)
Definition baseOptions (input : UploadMediaInput) (now : Z) : ImageKit.UploadOptions :=
  {| ImageKit.file := mediaDataUri input;
     ImageKit.fileName := "media-" ++ show_int now;
     ImageKit.useUniqueFileName := true;
     ImageKit.transformation := None |}.

(** [uploadOptions.transformation = t] *)
Definition set_transformation (o : ImageKit.UploadOptions) (t : ImageKit.Transformation)
  : ImageKit.UploadOptions :=
  {| ImageKit.file := ImageKit.file o;
     ImageKit.fileName := ImageKit.fileName o;
     ImageKit.useUniqueFileName := ImageKit.useUniqueFileName o;
     ImageKit.transformation := Some t |}.

End UploadMedia.

Import UploadMedia.

(** *** [src/ai/flows/upload-media-flow.ts] *)

Module Named.

Definition videoTransformation : ImageKit.Transformation :=
  ImageKit.Steps
    [ {| ImageKit.name := "Video Thumbnail";
         ImageKit.options := {| ImageKit.format := "jpg"; ImageKit.quality := 80 |} |} ].

Definition uploadOptions (input : UploadMediaInput) (now : Z) : ImageKit.UploadOptions :=
  let uploadOptions := baseOptions input now in
  if truthy_flag (isVideo input)
  then set_transformation uploadOptions videoTransformation
  else uploadOptions.

Definition uploadMediaFlow_handler (input : UploadMediaInput) : M UploadMediaOutput :=
  try_catch
    (now <- ask Date_now ;;
     response <- upload (uploadOptions input now) ;;
     if negb (truthy (ImageKit.url response)) then
       console_error "ImageKit full response on failure:" (LogResponse response) ;;;
       throw (JsError "ImageKit response did not include a URL.")
     else
       let thumbnailUrl :=
         js_or (ImageKit.thumbnailUrl response) (ImageKit.metadata_thumbnailUrl response) in
       ret {| mediaUrl := ImageKit.url response;
              thumbnailUrl := thumbnailUrl |})
    (fun error =>
       console_error "ImageKit upload failed:" (LogThrown error) ;;;
       throw (JsError
                ("Media upload failed: " ++
                 or_else (message_of error) "Unknown ImageKit error"))).

Definition uploadMediaFlow : UploadMediaInput -> M UploadMediaOutput :=
  defineFlow "uploadMediaFlow" UploadMediaInputSchema UploadMediaOutputSchema
             uploadMediaFlow_handler.

Definition uploadMedia (input : UploadMediaInput) : M UploadMediaOutput :=
  uploadMediaFlow input.

End Named.

(** *** The unnamed copy of the upload flow *)

Module Unnamed.

Definition videoTransformation : ImageKit.Transformation :=
  ImageKit.Pre "media-thumbnail-generator".

Definition uploadOptions (input : UploadMediaInput) (now : Z) : ImageKit.UploadOptions :=
  let uploadOptions := baseOptions input now in
  if truthy_flag (isVideo input)
  then set_transformation uploadOptions videoTransformation
  else uploadOptions.

Definition uploadMediaFlow_handler (input : UploadMediaInput) : M UploadMediaOutput :=
  try_catch
    (now <- ask Date_now ;;
     response <- upload (uploadOptions input now) ;;
     if negb (truthy (ImageKit.url response)) then
       console_error "ImageKit full response on failure:" (LogResponse response) ;;;
       throw (JsError "ImageKit response did not include a URL.")
     else
       ret {| mediaUrl := ImageKit.url response;
              thumbnailUrl := ImageKit.thumbnailUrl response |})
    (fun error =>
       console_error "ImageKit upload failed:" (LogThrown error) ;;;
       throw (JsError
                (or_else (message_of error)
                         "An unknown error occurred during media upload."))).

Definition uploadMediaFlow : UploadMediaInput -> M UploadMediaOutput :=
  defineFlow "uploadMediaFlow" UploadMediaInputSchema UploadMediaOutputSchema
             uploadMediaFlow_handler.

Definition uploadMedia (input : UploadMediaInput) : M UploadMediaOutput :=
  uploadMediaFlow input.

End Unnamed.

(** ** [src/ai/flows/process-and-upload-media-flow.ts] *)

Module Process.

Inductive MediaType := image | video.

(** [input.mediaType === t] *)
Definition MediaType_eqb (a b : MediaType) : bool :=
  match a, b with
  | image, image => true
  | video, video => true
  | _, _ => false
  end.

(** [ProcessMediaInputSchema] *)
Record ProcessMediaInput := {
  mediaDataUri : string;
  mediaType : MediaType
}.

(** [ProcessMediaOutputSchema] *)
Record ProcessMediaOutput := {
  mediaUrl : option string;
  thumbnailUrl : option string;
  dominantColor : option string
}.

(** A string and a member of the enumeration: every value of the record parses. *)
Definition ProcessMediaInputSchema (_ : ProcessMediaInput) : bool := true.

(** [mediaUrl: z.string().url()], [thumbnailUrl: z.string().url().optional()],
    [dominantColor: z.string().optional()] *)
Definition ProcessMediaOutputSchema (w : World) (o : ProcessMediaOutput) : bool :=
  match mediaUrl o with
  | Some u => is_url w u
  | None => false
  end
  &&
  match thumbnailUrl o with
  | Some t => is_url w t
  | None => true
  end.

(** [await colorExtractPrompt({ photoDataUri })] *)
Definition colorExtractPrompt (arg : ColorExtract.Input) : M ColorExtract.Result :=
  await_call (EvColorExtract arg) (fun w => colorExtractPrompt_answer w arg).

Section Flow.

(** The import [uploadMedia] from [./upload-media-flow].  The handler
    guards against a missing result ([!uploadResult]), so what the import
    resolves to is an object or nothing. *)
Variable uploadMedia : UploadMediaInput -> M (option UploadMediaOutput).

Definition uploadInput (input : ProcessMediaInput) : UploadMediaInput :=
  {| UploadMedia.mediaDataUri := mediaDataUri input;
     UploadMedia.isVideo := Some (MediaType_eqb (mediaType input) video) |}.

(** Step 2 of the handler: the value of [dominantColor] after the [if]. *)
Definition extractColor (input : ProcessMediaInput) : M (option string) :=
  if MediaType_eqb (mediaType input) image then
    try_catch
      (colorResult <- colorExtractPrompt
                        {| ColorExtract.photoDataUri := mediaDataUri input |} ;;
       ret (ColorExtract.output_dominantColor colorResult))
      (fun colorError =>
         console_warn "Could not extract dominant color, will proceed without it."
                      (LogThrown colorError) ;;;
         ret None)
  else ret None.

Definition processAndUploadMediaFlow_handler (input : ProcessMediaInput)
  : M ProcessMediaOutput :=
  uploadResult <- uploadMedia (uploadInput input) ;;
  match uploadResult with
  | None => throw (JsError "Media upload failed to return a URL.")
  | Some uploadResult =>
      if negb (truthy (UploadMedia.mediaUrl uploadResult)) then
        throw (JsError "Media upload failed to return a URL.")
      else
        dominantColor <- extractColor input ;;
        ret {| mediaUrl := UploadMedia.mediaUrl uploadResult;
               thumbnailUrl := UploadMedia.thumbnailUrl uploadResult;
               dominantColor := dominantColor |}
  end.

Definition processAndUploadMediaFlow : ProcessMediaInput -> M ProcessMediaOutput :=
  defineFlow "processAndUploadMediaFlow" ProcessMediaInputSchema ProcessMediaOutputSchema
             processAndUploadMediaFlow_handler.

Definition processAndUploadMedia (input : ProcessMediaInput) : M ProcessMediaOutput :=
  processAndUploadMediaFlow input.

End Flow.

(** An upload function that resolves to an object, seen by the handler. *)
Definition resolved (f : UploadMediaInput -> M UploadMediaOutput)
  : UploadMediaInput -> M (option UploadMediaOutput) :=
  fun i => r <- f i ;; ret (Some r).

End Process.

(** The program as linked: [./upload-media-flow] is the named upload flow. *)
Definition processAndUploadMedia : Process.ProcessMediaInput -> M Process.ProcessMediaOutput :=
  Process.processAndUploadMedia (Process.resolved Named.uploadMedia).

(** ** Vocabulary of the properties *)

(** The two copies of the upload flow. *)
Inductive Copy := named | unnamed.

Definition uploadMedia_of (c : Copy) : UploadMediaInput -> M UploadMediaOutput :=
  match c with
  | named => Named.uploadMedia
  | unnamed => Unnamed.uploadMedia
  end.

Definition uploadOptions_of (c : Copy) : UploadMediaInput -> Z -> ImageKit.UploadOptions :=
  match c with
  | named => Named.uploadOptions
  | unnamed => Unnamed.uploadOptions
  end.

(** What the service answers to the call a copy makes for [input]. *)
Definition service_answer (c : Copy) (input : UploadMediaInput) (w : World)
  : ServiceError + ImageKit.UploadResponse :=
  imagekit_upload w imagekit (uploadOptions_of c input (Date_now w)).

(** The options of the upload calls among the events of a run. *)
Fixpoint upload_calls (l : list Event) : list ImageKit.UploadOptions :=
  match l with
  | [] => []
  | EvUpload _ o :: l => o :: upload_calls l
  | _ :: l => upload_calls l
  end.

(** The arguments of the color-extraction calls among the events of a run. *)
Fixpoint color_calls (l : list Event) : list ColorExtract.Input :=
  match l with
  | [] => []
  | EvColorExtract a :: l => a :: color_calls l
  | _ :: l => color_calls l
  end.

Definition named_failure (text : option string) : Thrown :=
  JsError ("Media upload failed: " ++ or_else text "Unknown ImageKit error").

Definition unnamed_failure (text : option string) : Thrown :=
  JsError (or_else text "An unknown error occurred during media upload.").

Definition no_url_error : Thrown := JsError "ImageKit response did not include a URL.".

Definition validated (w : World) (o : UploadMediaOutput) : Outcome UploadMediaOutput :=
  if UploadMediaOutputSchema w o then Returned o
  else Threw (SchemaViolation "uploadMediaFlow" (schema_message w "uploadMediaFlow")).

Definition guard_error : Thrown := JsError "Media upload failed to return a URL.".

Definition color_warning : string :=
  "Could not extract dominant color, will proceed without it.".

(** The events of step 2 and the value it leaves in [dominantColor]. *)
Definition color_step (input : Process.ProcessMediaInput) (w : World)
  : list Event * option string :=
  let arg := {| ColorExtract.photoDataUri := Process.mediaDataUri input |} in
  match Process.mediaType input with
  | Process.image =>
      match colorExtractPrompt_answer w arg with
      | inr colorResult => ([EvColorExtract arg], ColorExtract.output_dominantColor colorResult)
      | inl e => ([EvColorExtract arg; EvConsoleWarn color_warning (LogThrown (Rejected e))], None)
      end
  | Process.video => ([], None)
  end.

Definition validated_result (w : World) (o : Process.ProcessMediaOutput)
  : Outcome Process.ProcessMediaOutput :=
  if Process.ProcessMediaOutputSchema w o then Returned o
  else Threw (SchemaViolation "processAndUploadMediaFlow"
                (schema_message w "processAndUploadMediaFlow")).

(** What a copy throws from its [catch] for an error whose text is [text]. *)
Definition failure_of (c : Copy) (text : option string) : Thrown :=
  match c with
  | named => named_failure text
  | unnamed => unnamed_failure text
  end.

(** The [thumbnailUrl] a copy puts in its result. *)
Definition thumbnail_of (c : Copy) (response : ImageKit.UploadResponse) : option string :=
  match c with
  | named => js_or (ImageKit.thumbnailUrl response) (ImageKit.metadata_thumbnailUrl response)
  | unnamed => ImageKit.thumbnailUrl response
  end.

(** The text ([error.message]) of the error a copy's [catch] receives, when the
    service's answer leads there: the rejection's message, or the message of
    the flow's own error for a response without a URL. *)
Definition caught_text (answer : ServiceError + ImageKit.UploadResponse)
  : option (option string) :=
  match answer with
  | inl e => Some (serviceMessage e)
  | inr response =>
      if truthy (ImageKit.url response) then None
      else Some (Some "ImageKit response did not include a URL.")
  end.

(** The console writes among the events of a run. *)
Fixpoint console_writes (l : list Event) : list Event :=
  match l with
  | [] => []
  | EvConsoleError label what :: l => EvConsoleError label what :: console_writes l
  | EvConsoleWarn label what :: l => EvConsoleWarn label what :: console_writes l
  | _ :: l => console_writes l
  end.

(** ** Concrete worlds for the examples *)

(** A stand-in for zod's URL check in the examples. *)
Definition url_like (s : string) : bool := String.prefix "https://" s.

Definition world_of
    (upload : ImageKit.UploadOptions -> ServiceError + ImageKit.UploadResponse)
    (color : ColorExtract.Input -> ServiceError + ColorExtract.Result) : World :=
  {| is_url := url_like;
     schema_message := fun flow => "Schema validation failed: " ++ flow;
     Date_now := 1700000000000;
     imagekit_upload := fun _ => upload;
     colorExtractPrompt_answer := color |}.

Definition png_response : ImageKit.UploadResponse :=
  {| ImageKit.url := Some "https://cdn.example/x.png";
     ImageKit.thumbnailUrl := None;
     ImageKit.metadata := None;
     ImageKit.other := "fileId=1" |}.

Definition mp4_response : ImageKit.UploadResponse :=
  {| ImageKit.url := Some "https://cdn.example/x.mp4";
     ImageKit.thumbnailUrl := Some "https://cdn.example/x.jpg";
     ImageKit.metadata := None;
     ImageKit.other := "fileId=2" |}.

(** A response whose thumbnail is found in the metadata only. *)
Definition metadata_response : ImageKit.UploadResponse :=
  {| ImageKit.url := Some "https://cdn.example/x.mp4";
     ImageKit.thumbnailUrl := None;
     ImageKit.metadata := Some {| ImageKit.metaThumbnailUrl := Some "https://cdn.example/m.jpg" |};
     ImageKit.other := "fileId=3" |}.

(** A response without a URL (but with a thumbnail). *)
Definition no_url_response : ImageKit.UploadResponse :=
  {| ImageKit.url := None;
     ImageKit.thumbnailUrl := Some "https://cdn.example/t.jpg";
     ImageKit.metadata := None;
     ImageKit.other := "fileId=4" |}.

Definition quota_error : ServiceError :=
  {| serviceMessage := Some "quota exceeded"; body := "status=429" |}.

Definition model_error : ServiceError :=
  {| serviceMessage := Some "model unavailable"; body := "status=503" |}.

Definition color_found : ColorExtract.Input -> ServiceError + ColorExtract.Result :=
  fun _ => inr {| ColorExtract.output := Some {| ColorExtract.dominantColor := "#1A2B3C" |} |}.

Definition color_fails : ColorExtract.Input -> ServiceError + ColorExtract.Result :=
  fun _ => inl model_error.

Definition image_request : Process.ProcessMediaInput :=
  {| Process.mediaDataUri := "data:image/png;base64,AAAA"; Process.mediaType := Process.image |}.

Definition video_request : Process.ProcessMediaInput :=
  {| Process.mediaDataUri := "data:video/mp4;base64,AAAA"; Process.mediaType := Process.video |}.

Definition image_upload : UploadMediaInput :=
  {| UploadMedia.mediaDataUri := "data:image/png;base64,AAAA"; UploadMedia.isVideo := None |}.

Definition video_upload : UploadMediaInput :=
  {| UploadMedia.mediaDataUri := "data:video/mp4;base64,AAAA"; UploadMedia.isVideo := Some true |}.

(** An upload function that resolves to an object without [mediaUrl]. *)
Definition upload_without_url : UploadMediaInput -> M (option UploadMediaOutput) :=
  fun _ => ret (Some {| UploadMedia.mediaUrl := None;
                        UploadMedia.thumbnailUrl := Some "https://cdn.example/t.jpg" |}).

(** * Properties *)

(** ** Running the upload flows

    What a run of each upload flow does, by cases on the service's answer. *)

Lemma Named_uploadMedia_run (input : UploadMediaInput) (w : World) :
  let opts := Named.uploadOptions input (Date_now w) in
  Named.uploadMedia input w =
  match imagekit_upload w imagekit opts with
  | inl e =>
      ([EvUpload imagekit opts;
        EvConsoleError "ImageKit upload failed:" (LogThrown (Rejected e))],
       Threw (named_failure (serviceMessage e)))
  | inr response =>
      if truthy (ImageKit.url response) then
        ([EvUpload imagekit opts],
         validated w {| mediaUrl := ImageKit.url response;
                        thumbnailUrl := js_or (ImageKit.thumbnailUrl response)
                                              (ImageKit.metadata_thumbnailUrl response) |})
      else
        ([EvUpload imagekit opts;
          EvConsoleError "ImageKit full response on failure:" (LogResponse response);
          EvConsoleError "ImageKit upload failed:" (LogThrown no_url_error)],
         Threw (named_failure (Some "ImageKit response did not include a URL.")))
  end.
Proof.
  intros opts.
  unfold Named.uploadMedia, Named.uploadMediaFlow, defineFlow, Named.uploadMediaFlow_handler.
  unfold UploadMediaInputSchema, bind, try_catch, ask, upload, await_call, validated,
    schema_violation.
  fold opts.
  destruct (imagekit_upload w imagekit opts) as [e | response]; [reflexivity |].
  destruct (truthy (ImageKit.url response)); simpl.
  - destruct (UploadMediaOutputSchema w _); reflexivity.
  - reflexivity.
Qed.

Lemma Unnamed_uploadMedia_run (input : UploadMediaInput) (w : World) :
  let opts := Unnamed.uploadOptions input (Date_now w) in
  Unnamed.uploadMedia input w =
  match imagekit_upload w imagekit opts with
  | inl e =>
      ([EvUpload imagekit opts;
        EvConsoleError "ImageKit upload failed:" (LogThrown (Rejected e))],
       Threw (unnamed_failure (serviceMessage e)))
  | inr response =>
      if truthy (ImageKit.url response) then
        ([EvUpload imagekit opts],
         validated w {| mediaUrl := ImageKit.url response;
                        thumbnailUrl := ImageKit.thumbnailUrl response |})
      else
        ([EvUpload imagekit opts;
          EvConsoleError "ImageKit full response on failure:" (LogResponse response);
          EvConsoleError "ImageKit upload failed:" (LogThrown no_url_error)],
         Threw (unnamed_failure (Some "ImageKit response did not include a URL.")))
  end.
Proof.
  intros opts.
  unfold Unnamed.uploadMedia, Unnamed.uploadMediaFlow, defineFlow,
    Unnamed.uploadMediaFlow_handler.
  unfold UploadMediaInputSchema, bind, try_catch, ask, upload, await_call, validated,
    schema_violation.
  fold opts.
  destruct (imagekit_upload w imagekit opts) as [e | response]; [reflexivity |].
  destruct (truthy (ImageKit.url response)); simpl.
  - destruct (UploadMediaOutputSchema w _); reflexivity.
  - reflexivity.
Qed.

(** ** Running the orchestrator *)

(** Step 2 never throws. *)
Lemma extractColor_run (input : Process.ProcessMediaInput) (w : World) :
  Process.extractColor input w = (fst (color_step input w), Returned (snd (color_step input w))).
Proof.
  unfold Process.extractColor, color_step.
  destruct (Process.mediaType input); simpl; [| reflexivity].
  unfold try_catch, bind, Process.colorExtractPrompt, await_call.
  destruct (colorExtractPrompt_answer w _); reflexivity.
Qed.

Lemma processAndUploadMedia_run
    (uploadMedia : UploadMediaInput -> M (option UploadMediaOutput))
    (input : Process.ProcessMediaInput) (w : World) :
  Process.processAndUploadMedia uploadMedia input w =
  match uploadMedia (Process.uploadInput input) w with
  | (l, Threw e) => (l, Threw e)
  | (l, Returned None) => (l, Threw guard_error)
  | (l, Returned (Some uploadResult)) =>
      if truthy (UploadMedia.mediaUrl uploadResult) then
        ((l ++ fst (color_step input w))%list,
         validated_result w
           {| Process.mediaUrl := UploadMedia.mediaUrl uploadResult;
              Process.thumbnailUrl := UploadMedia.thumbnailUrl uploadResult;
              Process.dominantColor := snd (color_step input w) |})
      else (l, Threw guard_error)
  end.
Proof.
  unfold Process.processAndUploadMedia, Process.processAndUploadMediaFlow, defineFlow.
  unfold Process.ProcessMediaInputSchema, Process.processAndUploadMediaFlow_handler.
  unfold bind at 1 2.
  destruct (uploadMedia (Process.uploadInput input) w) as [l [[uploadResult |] | e]];
    simpl; rewrite ?app_nil_r; try reflexivity.
  destruct (truthy (UploadMedia.mediaUrl uploadResult)); simpl;
    rewrite ?app_nil_r; [| reflexivity].
  unfold bind. rewrite extractColor_run. simpl.
  unfold validated_result.
  destruct (Process.ProcessMediaOutputSchema w _); simpl; rewrite ?app_nil_r; reflexivity.
Qed.

(** ** The scenarios of the specification *)

Example scenario_image :
  outcome (processAndUploadMedia image_request) (world_of (fun _ => inr png_response) color_found)
  = Returned {| Process.mediaUrl := Some "https://cdn.example/x.png";
                Process.thumbnailUrl := None;
                Process.dominantColor := Some "#1A2B3C" |}.
Proof. vm_compute. reflexivity. Qed.

Example scenario_video :
  outcome (processAndUploadMedia video_request) (world_of (fun _ => inr mp4_response) color_found)
  = Returned {| Process.mediaUrl := Some "https://cdn.example/x.mp4";
                Process.thumbnailUrl := Some "https://cdn.example/x.jpg";
                Process.dominantColor := None |}.
Proof. vm_compute. reflexivity. Qed.

Example scenario_video_calls :
  events (processAndUploadMedia video_request) (world_of (fun _ => inr mp4_response) color_found)
  = [EvUpload imagekit
       {| ImageKit.file := "data:video/mp4;base64,AAAA";
          ImageKit.fileName := "media-1700000000000";
          ImageKit.useUniqueFileName := true;
          ImageKit.transformation := Some Named.videoTransformation |}].
Proof. vm_compute. reflexivity. Qed.

(** ** Shared facts about the upload flows *)

(** Both copies at once. *)
Lemma uploadMedia_of_run (c : Copy) (input : UploadMediaInput) (w : World) :
  uploadMedia_of c input w =
  let opts := uploadOptions_of c input (Date_now w) in
  match service_answer c input w with
  | inl e =>
      ([EvUpload imagekit opts;
        EvConsoleError "ImageKit upload failed:" (LogThrown (Rejected e))],
       Threw (failure_of c (serviceMessage e)))
  | inr response =>
      if truthy (ImageKit.url response) then
        ([EvUpload imagekit opts],
         validated w {| mediaUrl := ImageKit.url response;
                        thumbnailUrl := thumbnail_of c response |})
      else
        ([EvUpload imagekit opts;
          EvConsoleError "ImageKit full response on failure:" (LogResponse response);
          EvConsoleError "ImageKit upload failed:" (LogThrown no_url_error)],
         Threw (failure_of c (Some "ImageKit response did not include a URL.")))
  end.
Proof.
  destruct c; unfold uploadMedia_of, service_answer, uploadOptions_of, failure_of, thumbnail_of.
  - apply Named_uploadMedia_run.
  - apply Unnamed_uploadMedia_run.
Qed.

(** A run that returns got a response with a URL, and returns that URL. *)
Lemma uploadMedia_of_returned (c : Copy) (input : UploadMediaInput) (w : World)
    (l : list Event) (r : UploadMediaOutput) :
  uploadMedia_of c input w = (l, Returned r) ->
  exists response,
    service_answer c input w = inr response /\
    truthy (ImageKit.url response) = true /\
    mediaUrl r = ImageKit.url response /\
    thumbnailUrl r = thumbnail_of c response /\
    UploadMediaOutputSchema w r = true /\
    l = [EvUpload imagekit (uploadOptions_of c input (Date_now w))].
Proof.
  rewrite uploadMedia_of_run. cbv zeta.
  destruct (service_answer c input w) as [e | response]; [discriminate |].
  destruct (truthy (ImageKit.url response)) eqn:Hurl; [| discriminate].
  unfold validated.
  destruct (UploadMediaOutputSchema w _) eqn:Hschema; [| discriminate].
  intros H. injection H as Hl Hr. subst l r.
  exists response. repeat split; auto.
Qed.

(** The upload flows never look at the color model. *)
Lemma uploadMedia_of_ignores_color (c : Copy) (input : UploadMediaInput) (w : World)
    (cp : ColorExtract.Input -> ServiceError + ColorExtract.Result) :
  uploadMedia_of c input (with_color_model w cp) = uploadMedia_of c input w.
Proof.
  rewrite !uploadMedia_of_run. reflexivity.
Qed.

(** The upload flows never call the color model. *)
Lemma uploadMedia_of_color_calls (c : Copy) (input : UploadMediaInput) (w : World) :
  color_calls (fst (uploadMedia_of c input w)) = [].
Proof.
  rewrite uploadMedia_of_run. cbv zeta.
  destruct (service_answer c input w) as [e | response]; [reflexivity |].
  destruct (truthy (ImageKit.url response)); reflexivity.
Qed.

Lemma Threw_inj {A : Type} (a b : Thrown) : @Threw A a = Threw b -> a = b.
Proof.
  intros H. injection H as H. exact H.
Qed.

(** The texts the named copy throws all start with the same prefix, which the
    orchestrator's own error does not. *)
Lemma named_failure_not_guard (text : option string) : named_failure text <> guard_error.
Proof.
  unfold named_failure, guard_error. simpl. intros H. discriminate H.
Qed.

Lemma length_append (p s : string) :
  String.length (p ++ s) = String.length p + String.length s.
Proof.
  induction p as [| a p IH]; simpl; [reflexivity | now rewrite IH].
Qed.

Lemma prefixed_differs (p s : string) : p <> "" -> p ++ s <> s.
Proof.
  intros Hp H.
  apply (f_equal String.length) in H.
  rewrite length_append in H.
  destruct p as [| a p]; [congruence | simpl in H; lia].
Qed.

(** The program as linked, by cases on what the named upload flow does. *)
Lemma linked_run (input : Process.ProcessMediaInput) (w : World) :
  processAndUploadMedia input w =
  match Named.uploadMedia (Process.uploadInput input) w with
  | (l, Threw e) => (l, Threw e)
  | (l, Returned uploadResult) =>
      if truthy (UploadMedia.mediaUrl uploadResult) then
        ((l ++ fst (color_step input w))%list,
         validated_result w
           {| Process.mediaUrl := UploadMedia.mediaUrl uploadResult;
              Process.thumbnailUrl := UploadMedia.thumbnailUrl uploadResult;
              Process.dominantColor := snd (color_step input w) |})
      else (l, Threw guard_error)
  end.
Proof.
  unfold processAndUploadMedia. rewrite processAndUploadMedia_run.
  unfold Process.resolved, bind, ret.
  destruct (Named.uploadMedia (Process.uploadInput input) w) as [l [r | e]];
    simpl; rewrite ?app_nil_r; reflexivity.
Qed.

(** ** The orchestrator *)

(** C1.  For an image whose upload succeeds, a failure of the color-extraction
    call is absorbed: [processAndUploadMedia] still returns, with the upload's
    [mediaUrl] and [thumbnailUrl] and with [dominantColor] undefined; the error
    of the color model is only written to the console as a warning. *)
Theorem color_failure_is_absorbed
    (w : World) (input : Process.ProcessMediaInput)
    (uploadResult : UploadMediaOutput) (e : ServiceError) :
  Process.mediaType input = Process.image ->
  outcome (Named.uploadMedia (Process.uploadInput input)) w = Returned uploadResult ->
  colorExtractPrompt_answer w
    {| ColorExtract.photoDataUri := Process.mediaDataUri input |} = inl e ->
  outcome (processAndUploadMedia input) w =
    Returned {| Process.mediaUrl := UploadMedia.mediaUrl uploadResult;
                Process.thumbnailUrl := UploadMedia.thumbnailUrl uploadResult;
                Process.dominantColor := None |}
  /\ In (EvConsoleWarn color_warning (LogThrown (Rejected e)))
        (events (processAndUploadMedia input) w).
Proof.
  intros Himage Hupload Hcolor.
  unfold outcome, events in *. rewrite linked_run.
  destruct (Named.uploadMedia (Process.uploadInput input) w) as [l o] eqn:Hrun.
  simpl in Hupload. subst o.
  destruct (uploadMedia_of_returned named _ _ _ _ Hrun)
    as (response & _ & Htruthy & Hurl & _ & Hschema & _).
  rewrite Hurl, Htruthy.
  unfold color_step. rewrite Himage, Hcolor. simpl.
  split.
  - unfold validated_result, Process.ProcessMediaOutputSchema. simpl.
    unfold UploadMediaOutputSchema in Hschema. rewrite Hurl in Hschema.
    rewrite Hschema. reflexivity.
  - apply in_or_app. right. simpl. auto.
Qed.

Lemma color_failure_is_absorbed_witness :
  outcome (processAndUploadMedia image_request) (world_of (fun _ => inr png_response) color_fails)
  = Returned {| Process.mediaUrl := Some "https://cdn.example/x.png";
                Process.thumbnailUrl := None;
                Process.dominantColor := None |}.
Proof.
  apply (color_failure_is_absorbed
           (world_of (fun _ => inr png_response) color_fails) image_request
           {| UploadMedia.mediaUrl := Some "https://cdn.example/x.png";
              UploadMedia.thumbnailUrl := None |}
           model_error); reflexivity.
Defined.

(** C2.  For a video the color-extraction step is never invoked: no call to the
    color model is among the events of the run, every result has
    [dominantColor] undefined, and the whole run is the same whatever the color
    model would answer. *)
Theorem video_skips_color_extraction (w : World) (input : Process.ProcessMediaInput) :
  Process.mediaType input = Process.video ->
  color_calls (events (processAndUploadMedia input) w) = []
  /\ (forall out, outcome (processAndUploadMedia input) w = Returned out ->
                  Process.dominantColor out = None)
  /\ (forall cp, processAndUploadMedia input (with_color_model w cp)
                 = processAndUploadMedia input w).
Proof.
  intros Hvideo.
  assert (Hstep : forall w', color_step input w' = ([], None))
    by (intros w'; unfold color_step; rewrite Hvideo; reflexivity).
  repeat split.
  - unfold events. rewrite linked_run, Hstep.
    pose proof (uploadMedia_of_color_calls named (Process.uploadInput input) w) as Hnone.
    simpl in Hnone.
    destruct (Named.uploadMedia (Process.uploadInput input) w) as [l [r | e]]; simpl in *.
    + destruct (truthy (mediaUrl r)); simpl; rewrite ?app_nil_r; exact Hnone.
    + exact Hnone.
  - intros out. unfold outcome. rewrite linked_run, Hstep.
    destruct (Named.uploadMedia (Process.uploadInput input) w) as [l [r | e]]; simpl.
    + destruct (truthy (mediaUrl r)); simpl; [| discriminate].
      unfold validated_result.
      destruct (Process.ProcessMediaOutputSchema w _); [| discriminate].
      intros H. injection H as <-. reflexivity.
    + discriminate.
  - intros cp. rewrite !linked_run, !Hstep.
    change (Named.uploadMedia (Process.uploadInput input) (with_color_model w cp))
      with (uploadMedia_of named (Process.uploadInput input) (with_color_model w cp)).
    rewrite uploadMedia_of_ignores_color. reflexivity.
Qed.

Lemma video_skips_color_extraction_witness :
  color_calls (events (processAndUploadMedia video_request)
                      (world_of (fun _ => inr mp4_response) color_found)) = [].
Proof.
  apply (video_skips_color_extraction
           (world_of (fun _ => inr mp4_response) color_found) video_request).
  reflexivity.
Defined.

(** C5.  Whatever [uploadMedia] is, the orchestrator calls it with the input's
    data URI and [isVideo = (mediaType == video)].  If that call throws, the run
    throws the same error and does nothing after the call; if it resolves to no
    result or to a result without [mediaUrl], the run throws an error whose
    message is exactly [Media upload failed to return a URL.], again with no
    further event. *)
Theorem upload_failure_is_fatal
    (uploadMedia : UploadMediaInput -> M (option UploadMediaOutput))
    (input : Process.ProcessMediaInput) (w : World) :
  let request :=
    {| UploadMedia.mediaDataUri := Process.mediaDataUri input;
       UploadMedia.isVideo :=
         Some match Process.mediaType input with
              | Process.video => true
              | Process.image => false
              end |} in
  (forall calls e,
      uploadMedia request w = (calls, Threw e) ->
      Process.processAndUploadMedia uploadMedia input w = (calls, Threw e))
  /\ (forall calls,
      uploadMedia request w = (calls, Returned None) ->
      Process.processAndUploadMedia uploadMedia input w
      = (calls, Threw (JsError "Media upload failed to return a URL.")))
  /\ (forall calls uploadResult,
      uploadMedia request w = (calls, Returned (Some uploadResult)) ->
      truthy (UploadMedia.mediaUrl uploadResult) = false ->
      Process.processAndUploadMedia uploadMedia input w
      = (calls, Threw (JsError "Media upload failed to return a URL."))).
Proof.
  intros request.
  assert (Hreq : Process.uploadInput input = request)
    by (unfold Process.uploadInput, request; destruct (Process.mediaType input); reflexivity).
  repeat split; intros; rewrite processAndUploadMedia_run, Hreq.
  - rewrite H. reflexivity.
  - rewrite H. reflexivity.
  - rewrite H, H0. reflexivity.
Qed.

Lemma upload_failure_is_fatal_witness :
  Process.processAndUploadMedia upload_without_url image_request
    (world_of (fun _ => inl quota_error) color_found)
  = ([], Threw (JsError "Media upload failed to return a URL.")).
Proof.
  apply (proj2 (proj2 (upload_failure_is_fatal upload_without_url image_request
                         (world_of (fun _ => inl quota_error) color_found)))
               []
               {| UploadMedia.mediaUrl := None;
                  UploadMedia.thumbnailUrl := Some "https://cdn.example/t.jpg" |});
    reflexivity.
Defined.

(** C9.  When [processAndUploadMedia] returns, its [mediaUrl] and [thumbnailUrl]
    are those of the upload's result; with any other color model the run
    returns as well, with the same two fields. *)
Theorem result_urls_come_from_upload
    (w : World) (input : Process.ProcessMediaInput) (out : Process.ProcessMediaOutput) :
  outcome (processAndUploadMedia input) w = Returned out ->
  (exists uploadResult,
      outcome (Named.uploadMedia (Process.uploadInput input)) w = Returned uploadResult /\
      Process.mediaUrl out = UploadMedia.mediaUrl uploadResult /\
      Process.thumbnailUrl out = UploadMedia.thumbnailUrl uploadResult)
  /\ (forall cp, exists out',
      outcome (processAndUploadMedia input) (with_color_model w cp) = Returned out' /\
      Process.mediaUrl out' = Process.mediaUrl out /\
      Process.thumbnailUrl out' = Process.thumbnailUrl out).
Proof.
  unfold outcome. intros Hout.
  assert (Hrun := linked_run input w).
  destruct (Named.uploadMedia (Process.uploadInput input) w) as [l [r | e]] eqn:Hup;
    rewrite Hrun in Hout; simpl in Hout; [| discriminate].
  destruct (truthy (mediaUrl r)) eqn:Htruthy; simpl in Hout; [| discriminate].
  unfold validated_result in Hout.
  destruct (Process.ProcessMediaOutputSchema w _) eqn:Hschema; [| discriminate].
  injection Hout as <-. simpl.
  split.
  - exists r. auto.
  - intros cp. rewrite linked_run.
    change (Named.uploadMedia (Process.uploadInput input) (with_color_model w cp))
      with (uploadMedia_of named (Process.uploadInput input) (with_color_model w cp)).
    rewrite uploadMedia_of_ignores_color. simpl uploadMedia_of.
    rewrite Hup, Htruthy. simpl snd.
    unfold validated_result, Process.ProcessMediaOutputSchema in *.
    simpl in *. rewrite Hschema.
    eexists. split; [reflexivity | simpl; auto].
Qed.

Lemma result_urls_come_from_upload_witness :
  exists uploadResult,
    outcome (Named.uploadMedia (Process.uploadInput video_request))
            (world_of (fun _ => inr mp4_response) color_found) = Returned uploadResult /\
    Some "https://cdn.example/x.mp4" = UploadMedia.mediaUrl uploadResult /\
    Some "https://cdn.example/x.jpg" = UploadMedia.thumbnailUrl uploadResult.
Proof.
  apply (result_urls_come_from_upload
           (world_of (fun _ => inr mp4_response) color_found) video_request
           {| Process.mediaUrl := Some "https://cdn.example/x.mp4";
              Process.thumbnailUrl := Some "https://cdn.example/x.jpg";
              Process.dominantColor := None |}).
  reflexivity.
Defined.

(** C10.  The named upload flow returns only results whose [mediaUrl] is the
    non-empty URL of the service's response, so the orchestrator linked with it
    never throws [Media upload failed to return a URL.]. *)
Theorem url_guard_is_unreachable (w : World) (input : Process.ProcessMediaInput) :
  (forall request uploadResult,
      outcome (Named.uploadMedia request) w = Returned uploadResult ->
      truthy (UploadMedia.mediaUrl uploadResult) = true /\
      exists response,
        service_answer named request w = inr response /\
        UploadMedia.mediaUrl uploadResult = ImageKit.url response)
  /\ outcome (processAndUploadMedia input) w
     <> Threw (JsError "Media upload failed to return a URL.").
Proof.
  split.
  - intros request r Hr. unfold outcome in Hr.
    destruct (Named.uploadMedia request w) as [l o] eqn:Hrun. simpl in Hr. subst o.
    destruct (uploadMedia_of_returned named _ _ _ _ Hrun)
      as (response & Hanswer & Htruthy & Hurl & _).
    split; [rewrite Hurl; exact Htruthy | exists response; auto].
  - unfold outcome. rewrite linked_run.
    destruct (Named.uploadMedia (Process.uploadInput input) w) as [l [r | e]] eqn:Hrun; simpl.
    + destruct (uploadMedia_of_returned named _ _ _ _ Hrun)
        as (response & _ & Htruthy & Hurl & _).
      rewrite Hurl, Htruthy. simpl. unfold validated_result.
      destruct (Process.ProcessMediaOutputSchema w _); discriminate.
    + pose proof (uploadMedia_of_run named (Process.uploadInput input) w) as Hcases.
      simpl in Hcases. rewrite Hrun in Hcases.
      destruct (service_answer named (Process.uploadInput input) w) as [e' | response].
      * injection Hcases as _ ->.
        intros H. exact (named_failure_not_guard _ (Threw_inj _ _ H)).
      * destruct (truthy (ImageKit.url response)).
        -- unfold validated in Hcases.
           destruct (UploadMediaOutputSchema w _); [discriminate |].
           injection Hcases as _ ->. discriminate.
        -- injection Hcases as _ ->.
           intros H. exact (named_failure_not_guard _ (Threw_inj _ _ H)).
Qed.

Lemma url_guard_is_unreachable_witness :
  truthy (Some "https://cdn.example/x.png") = true /\
  exists response,
    service_answer named image_upload (world_of (fun _ => inr png_response) color_found)
      = inr response /\
    Some "https://cdn.example/x.png" = ImageKit.url response.
Proof.
  apply (proj1 (url_guard_is_unreachable
                  (world_of (fun _ => inr png_response) color_found) image_request)
               image_upload
               {| UploadMedia.mediaUrl := Some "https://cdn.example/x.png";
                  UploadMedia.thumbnailUrl := None |}).
  reflexivity.
Defined.

(** ** The upload flows *)

(** C3.  When the service's response lacks a URL, either copy of [uploadMedia]
    throws an error and returns nothing; and no run of either copy ever
    returns a result whose [mediaUrl] is missing or empty. *)
Theorem no_url_is_an_error
    (c : Copy) (w : World) (input : UploadMediaInput) (response : ImageKit.UploadResponse) :
  service_answer c input w = inr response ->
  truthy (ImageKit.url response) = false ->
  outcome (uploadMedia_of c input) w =
    Threw (JsError match c with
                   | named => "Media upload failed: ImageKit response did not include a URL."
                   | unnamed => "ImageKit response did not include a URL."
                   end)
  /\ (forall w' input' r,
        outcome (uploadMedia_of c input') w' = Returned r ->
        truthy (UploadMedia.mediaUrl r) = true).
Proof.
  intros Hanswer Hurl. split.
  - unfold outcome. rewrite uploadMedia_of_run. cbv zeta.
    rewrite Hanswer, Hurl. destruct c; reflexivity.
  - intros w' input' r Hr. unfold outcome in Hr.
    destruct (uploadMedia_of c input' w') as [l o] eqn:Hrun. simpl in Hr. subst o.
    destruct (uploadMedia_of_returned _ _ _ _ _ Hrun) as (response' & _ & Htruthy & Heq & _).
    rewrite Heq. exact Htruthy.
Qed.

Lemma no_url_is_an_error_witness :
  outcome (Named.uploadMedia image_upload) (world_of (fun _ => inr no_url_response) color_found)
  = Threw (JsError "Media upload failed: ImageKit response did not include a URL.").
Proof.
  apply (no_url_is_an_error named
           (world_of (fun _ => inr no_url_response) color_found)
           image_upload no_url_response);
    reflexivity.
Defined.

(** C4.  Either copy of [uploadMedia] calls the upload service exactly once.
    When [isVideo] is true the options of that call carry the copy's
    thumbnail-generation transformation: in [upload-media-flow.ts] the list
    with the one step named [Video Thumbnail], format [jpg], quality 80; in the
    unnamed copy the pre-transformation [media-thumbnail-generator].  When
    [isVideo] is false or absent the options have no [transformation]. *)
Theorem transformation_only_for_video (c : Copy) (w : World) (input : UploadMediaInput) :
  exists o,
    upload_calls (events (uploadMedia_of c input) w) = [o] /\
    ImageKit.transformation o =
      match UploadMedia.isVideo input with
      | Some true =>
          Some match c with
               | named =>
                   ImageKit.Steps
                     [ {| ImageKit.name := "Video Thumbnail";
                          ImageKit.options :=
                            {| ImageKit.format := "jpg"; ImageKit.quality := 80 |} |} ]
               | unnamed => ImageKit.Pre "media-thumbnail-generator"
               end
      | Some false | None => None
      end.
Proof.
  exists (uploadOptions_of c input (Date_now w)). split.
  - unfold events. rewrite uploadMedia_of_run. cbv zeta.
    destruct (service_answer c input w) as [e | response]; [reflexivity |].
    destruct (truthy (ImageKit.url response)); reflexivity.
  - destruct c; unfold uploadOptions_of, Named.uploadOptions, Unnamed.uploadOptions;
      destruct (UploadMedia.isVideo input) as [[|] |]; reflexivity.
Qed.

(** C6, as the code has it.  When the service call rejects or the response has
    no URL, the error thrown to the caller carries a message computed from the
    text of the underlying error alone: in the named copy [Media upload failed: ]
    followed by that text, or by [Unknown ImageKit error] when the text is
    missing or empty; in the unnamed copy the text itself, or
    [An unknown error occurred during media upload.]. *)
Theorem surfaced_message
    (c : Copy) (w : World) (input : UploadMediaInput) (text : option string) :
  caught_text (service_answer c input w) = Some text ->
  outcome (uploadMedia_of c input) w =
    Threw (JsError match c with
                   | named =>
                       "Media upload failed: " ++ or_else text "Unknown ImageKit error"
                   | unnamed =>
                       or_else text "An unknown error occurred during media upload."
                   end).
Proof.
  unfold outcome, caught_text. rewrite uploadMedia_of_run. cbv zeta.
  destruct (service_answer c input w) as [e | response].
  - intros H. injection H as <-. destruct c; reflexivity.
  - destruct (truthy (ImageKit.url response)); [discriminate |].
    intros H. injection H as <-. destruct c; reflexivity.
Qed.

Lemma surfaced_message_witness :
  outcome (Unnamed.uploadMedia image_upload) (world_of (fun _ => inl quota_error) color_found)
  = Threw (JsError "quota exceeded").
Proof.
  apply (surfaced_message unnamed
           (world_of (fun _ => inl quota_error) color_found)
           image_upload (Some "quota exceeded")).
  reflexivity.
Defined.

(** C6 fails as stated: the named copy does not surface the text of the
    underlying error as it is, it puts [Media upload failed: ] in front. *)
Lemma named_message_is_prefixed :
  service_answer named image_upload (world_of (fun _ => inl quota_error) color_found)
    = inl quota_error
  /\ serviceMessage quota_error = Some "quota exceeded"
  /\ outcome (Named.uploadMedia image_upload) (world_of (fun _ => inl quota_error) color_found)
     = Threw (JsError "Media upload failed: quota exceeded")
  /\ outcome (Named.uploadMedia image_upload) (world_of (fun _ => inl quota_error) color_found)
     <> Threw (JsError "quota exceeded").
Proof.
  repeat split. vm_compute. discriminate.
Qed.

(** C7, as the code has it.  When a copy of [uploadMedia] returns, the
    [thumbnailUrl] of the named copy is the response's [thumbnailUrl] when that
    is a non-empty string and the [thumbnailUrl] of the response's metadata
    otherwise (undefined when there is none); the unnamed copy returns the
    response's [thumbnailUrl] as it is and never reads the metadata. *)
Theorem thumbnail_of_result
    (c : Copy) (w : World) (input : UploadMediaInput) (r : UploadMediaOutput) :
  outcome (uploadMedia_of c input) w = Returned r ->
  exists response,
    service_answer c input w = inr response /\
    UploadMedia.thumbnailUrl r =
      match c with
      | named =>
          if truthy (ImageKit.thumbnailUrl response)
          then ImageKit.thumbnailUrl response
          else match ImageKit.metadata response with
               | Some m => ImageKit.metaThumbnailUrl m
               | None => None
               end
      | unnamed => ImageKit.thumbnailUrl response
      end.
Proof.
  unfold outcome. intros Hr.
  destruct (uploadMedia_of c input w) as [l o] eqn:Hrun. simpl in Hr. subst o.
  destruct (uploadMedia_of_returned _ _ _ _ _ Hrun) as (response & Hanswer & _ & _ & Hthumb & _).
  exists response. split; [exact Hanswer |].
  rewrite Hthumb. destruct c; reflexivity.
Qed.

Lemma thumbnail_of_result_witness :
  exists response,
    service_answer named video_upload (world_of (fun _ => inr metadata_response) color_found)
      = inr response /\
    Some "https://cdn.example/m.jpg" =
      if truthy (ImageKit.thumbnailUrl response)
      then ImageKit.thumbnailUrl response
      else match ImageKit.metadata response with
           | Some m => ImageKit.metaThumbnailUrl m
           | None => None
           end.
Proof.
  apply (thumbnail_of_result named
           (world_of (fun _ => inr metadata_response) color_found) video_upload
           {| UploadMedia.mediaUrl := Some "https://cdn.example/x.mp4";
              UploadMedia.thumbnailUrl := Some "https://cdn.example/m.jpg" |}).
  reflexivity.
Defined.

(** C7 fails as stated: for a response whose thumbnail is in the metadata
    only, the unnamed copy returns without a [thumbnailUrl]. *)
Lemma unnamed_ignores_metadata :
  ImageKit.thumbnailUrl metadata_response = None
  /\ ImageKit.metadata_thumbnailUrl metadata_response = Some "https://cdn.example/m.jpg"
  /\ outcome (Unnamed.uploadMedia video_upload)
             (world_of (fun _ => inr metadata_response) color_found)
     = Returned {| UploadMedia.mediaUrl := Some "https://cdn.example/x.mp4";
                   UploadMedia.thumbnailUrl := None |}.
Proof.
  repeat split.
Qed.

(** ** The two copies compared *)

(** Without a video flag the two copies build the same options. *)
Lemma same_options_unless_video (input : UploadMediaInput) (now : Z) :
  truthy_flag (UploadMedia.isVideo input) = false ->
  Named.uploadOptions input now = Unnamed.uploadOptions input now.
Proof.
  intros H. unfold Named.uploadOptions, Unnamed.uploadOptions. rewrite H. reflexivity.
Qed.

(** The messages of the two copies for the same underlying text differ. *)
Lemma failures_differ (text : option string) : named_failure text <> unnamed_failure text.
Proof.
  unfold named_failure, unnamed_failure, or_else. intros H.
  destruct text as [t |]; [destruct (t =? "") |]; try discriminate H.
  injection H as H. exact (prefixed_differs "Media upload failed: " t ltac:(discriminate) H).
Qed.

(** C8, as the code has it.  When [isVideo] is false or absent the two copies
    make the same service call and produce the same events.  Whenever the
    service answers the two copies alike: if the response has a URL and the
    metadata fallback leaves the response's [thumbnailUrl] as it is, both
    copies end the same way, with equal results; if the call rejects or the
    response has no URL, both copies throw, but never the same error: the
    named copy prefixes the text with [Media upload failed: ] and the two
    fallback texts differ. *)
Theorem copies_agree_except_error_text (w : World) (input : UploadMediaInput) :
  (truthy_flag (UploadMedia.isVideo input) = false ->
     service_answer named input w = service_answer unnamed input w /\
     events (Named.uploadMedia input) w = events (Unnamed.uploadMedia input) w)
  /\
  (service_answer named input w = service_answer unnamed input w ->
     (forall response,
         service_answer named input w = inr response ->
         truthy (ImageKit.url response) = true ->
         js_or (ImageKit.thumbnailUrl response) (ImageKit.metadata_thumbnailUrl response)
           = ImageKit.thumbnailUrl response ->
         outcome (Named.uploadMedia input) w = outcome (Unnamed.uploadMedia input) w)
     /\
     (forall text,
         caught_text (service_answer named input w) = Some text ->
         outcome (Named.uploadMedia input) w =
           Threw (JsError ("Media upload failed: " ++ or_else text "Unknown ImageKit error"))
         /\ outcome (Unnamed.uploadMedia input) w =
           Threw (JsError (or_else text "An unknown error occurred during media upload."))
         /\ outcome (Named.uploadMedia input) w <> outcome (Unnamed.uploadMedia input) w)).
Proof.
  pose proof (uploadMedia_of_run named input w) as Hn.
  pose proof (uploadMedia_of_run unnamed input w) as Hu.
  cbv zeta in Hn, Hu. simpl uploadMedia_of in Hn, Hu.
  split.
  - intros Hflag.
    assert (Hopts : uploadOptions_of named input (Date_now w)
                    = uploadOptions_of unnamed input (Date_now w))
      by (apply same_options_unless_video; exact Hflag).
    assert (Hsame : service_answer named input w = service_answer unnamed input w)
      by (unfold service_answer; rewrite Hopts; reflexivity).
    split; [exact Hsame |].
    unfold events. rewrite Hn, Hu, <- Hsame, <- Hopts.
    destruct (service_answer named input w) as [e | response]; [reflexivity |].
    destruct (truthy (ImageKit.url response)); reflexivity.
  - intros Hsame. rewrite <- Hsame in Hu. split.
    + intros response Hanswer Hurl Hthumb. unfold outcome.
      rewrite Hn, Hu, Hanswer, Hurl. simpl. rewrite Hthumb. reflexivity.
    + intros text Htext. unfold outcome, caught_text in *. rewrite Hn, Hu.
      destruct (service_answer named input w) as [e | response].
      * injection Htext as <-. simpl. repeat split.
        intros H. exact (failures_differ _ (Threw_inj _ _ H)).
      * destruct (truthy (ImageKit.url response)); [discriminate |].
        injection Htext as <-. simpl. repeat split.
        intros H. exact (failures_differ _ (Threw_inj _ _ H)).
Qed.

Lemma copies_agree_except_error_text_witness :
  outcome (Named.uploadMedia image_upload) (world_of (fun _ => inr png_response) color_found)
  = outcome (Unnamed.uploadMedia image_upload) (world_of (fun _ => inr png_response) color_found).
Proof.
  apply (proj1 (proj2 (copies_agree_except_error_text
                         (world_of (fun _ => inr png_response) color_found) image_upload)
                      eq_refl)
               png_response);
    reflexivity.
Defined.

(** C8 fails as stated: on a request without a video flag and the same
    rejection of the service, the two copies throw different errors. *)
Lemma copies_throw_different_errors :
  UploadMedia.isVideo image_upload = None
  /\ outcome (Named.uploadMedia image_upload) (world_of (fun _ => inl quota_error) color_found)
     = Threw (JsError "Media upload failed: quota exceeded")
  /\ outcome (Unnamed.uploadMedia image_upload) (world_of (fun _ => inl quota_error) color_found)
     = Threw (JsError "quota exceeded")
  /\ outcome (Named.uploadMedia image_upload) (world_of (fun _ => inl quota_error) color_found)
     <> outcome (Unnamed.uploadMedia image_upload)
                (world_of (fun _ => inl quota_error) color_found).
Proof.
  repeat split. vm_compute. discriminate.
Qed.

(** * Further properties of the flows *)

(** ** The call to the upload service *)

(** Decimal rendering loses nothing: equal renderings come from equal integers. *)
Lemma show_int_inj (a b : Z) : show_int a = show_int b -> a = b.
Proof.
  unfold show_int. intros H.
  assert (Hparse : forall z, NilZero.int_of_string (NilZero.string_of_int (Z.to_int z))
                             = Some (Z.to_int z)).
  { intros z. apply NilZero.isi; destruct z; simpl; try discriminate;
      intros E; injection E as E; exact (DecimalPos.Unsigned.to_uint_nonnil _ E). }
  apply DecimalZ.to_int_inj.
  pose proof (Hparse a) as Ha. rewrite H, Hparse in Ha. injection Ha as Ha. symmetry. exact Ha.
Qed.

(** The events of a run of either copy: the upload call, then console writes only. *)
Lemma uploadMedia_of_events (c : Copy) (w : World) (input : UploadMediaInput) :
  exists rest,
    fst (uploadMedia_of c input w)
    = EvUpload imagekit (uploadOptions_of c input (Date_now w)) :: rest /\
    upload_calls rest = [] /\ color_calls rest = [].
Proof.
  rewrite uploadMedia_of_run. cbv zeta.
  destruct (service_answer c input w) as [e | response];
    [| destruct (truthy (ImageKit.url response))];
    eexists; simpl; repeat split.
Qed.

(** The fields of the options that do not depend on the video flag. *)
Lemma uploadOptions_of_fields (c : Copy) (input : UploadMediaInput) (now : Z) :
  ImageKit.file (uploadOptions_of c input now) = UploadMedia.mediaDataUri input /\
  ImageKit.fileName (uploadOptions_of c input now) = "media-" ++ show_int now /\
  ImageKit.useUniqueFileName (uploadOptions_of c input now) = true.
Proof.
  destruct c; unfold uploadOptions_of, Named.uploadOptions, Unnamed.uploadOptions;
    destruct (truthy_flag (UploadMedia.isVideo input)); repeat split.
Qed.

Lemma upload_calls_app (l l' : list Event) :
  upload_calls (l ++ l') = (upload_calls l ++ upload_calls l')%list.
Proof.
  induction l as [| ev l IH]; [reflexivity |].
  destruct ev; simpl; rewrite IH; reflexivity.
Qed.

Lemma color_calls_app (l l' : list Event) :
  color_calls (l ++ l') = (color_calls l ++ color_calls l')%list.
Proof.
  induction l as [| ev l IH]; [reflexivity |].
  destruct ev; simpl; rewrite IH; reflexivity.
Qed.

Lemma console_writes_app (l l' : list Event) :
  console_writes (l ++ l') = (console_writes l ++ console_writes l')%list.
Proof.
  induction l as [| ev l IH]; [reflexivity |].
  destruct ev; simpl; rewrite IH; reflexivity.
Qed.

(** The color step makes no upload call. *)
Lemma color_step_upload_calls (input : Process.ProcessMediaInput) (w : World) :
  upload_calls (fst (color_step input w)) = [].
Proof.
  unfold color_step. destruct (Process.mediaType input); [| reflexivity].
  destruct (colorExtractPrompt_answer w _); reflexivity.
Qed.

(** X1.  Every run of either copy starts with the call to the upload service, and
    makes no other: the client is the one built from the literal keys, the
    file is the request's data URI as it came, the name is [media-] followed by
    the clock in decimal, and unique file names are asked for. *)
Theorem upload_call_options (c : Copy) (w : World) (input : UploadMediaInput) :
  exists o,
    hd_error (events (uploadMedia_of c input) w) = Some (EvUpload imagekit o) /\
    upload_calls (events (uploadMedia_of c input) w) = [o] /\
    ImageKit.file o = UploadMedia.mediaDataUri input /\
    ImageKit.fileName o = "media-" ++ show_int (Date_now w) /\
    ImageKit.useUniqueFileName o = true.
Proof.
  exists (uploadOptions_of c input (Date_now w)).
  destruct (uploadMedia_of_events c w input) as (rest & Hev & Hcalls & _).
  destruct (uploadOptions_of_fields c input (Date_now w)) as (Hfile & Hname & Hunique).
  unfold events. rewrite Hev. simpl. rewrite Hcalls. auto.
Qed.

(** X2.  Runs that send the same file name read the same clock: two uploads at
    different milliseconds never ask for the same name, whichever copy, request
    or service they use. *)
Theorem file_name_determines_clock
    (c c' : Copy) (w w' : World) (input input' : UploadMediaInput)
    (o o' : ImageKit.UploadOptions) :
  upload_calls (events (uploadMedia_of c input) w) = [o] ->
  upload_calls (events (uploadMedia_of c' input') w') = [o'] ->
  ImageKit.fileName o = ImageKit.fileName o' ->
  Date_now w = Date_now w'.
Proof.
  intros Ho Ho' Hname.
  destruct (uploadMedia_of_events c w input) as (rest & Hev & Hcalls & _).
  destruct (uploadMedia_of_events c' w' input') as (rest' & Hev' & Hcalls' & _).
  unfold events in Ho, Ho'. rewrite Hev in Ho. rewrite Hev' in Ho'.
  simpl in Ho, Ho'. injection Ho as <-. injection Ho' as <-.
  destruct (uploadOptions_of_fields c input (Date_now w)) as (_ & Hn & _).
  destruct (uploadOptions_of_fields c' input' (Date_now w')) as (_ & Hn' & _).
  rewrite Hn, Hn' in Hname. simpl in Hname.
  apply show_int_inj. congruence.
Qed.

Lemma file_name_determines_clock_witness :
  Date_now (world_of (fun _ => inr png_response) color_found)
  = Date_now (world_of (fun _ => inl quota_error) color_fails).
Proof.
  apply (file_name_determines_clock named unnamed
           (world_of (fun _ => inr png_response) color_found)
           (world_of (fun _ => inl quota_error) color_fails)
           image_upload video_upload
           (Named.uploadOptions image_upload 1700000000000)
           (Unnamed.uploadOptions video_upload 1700000000000));
    reflexivity.
Defined.

(** ** Errors and console of the upload flows *)

(** X3.  Neither copy lets the service's rejection out as it is: what a run throws
    is a fresh [Error] made in the [catch], or genkit's schema error. *)
Theorem upload_never_throws_rejection
    (c : Copy) (w : World) (input : UploadMediaInput) (e : ServiceError) :
  outcome (uploadMedia_of c input) w <> Threw (Rejected e).
Proof.
  unfold outcome. rewrite uploadMedia_of_run. cbv zeta.
  destruct (service_answer c input w) as [e' | response]; simpl.
  - destruct c; discriminate.
  - destruct (truthy (ImageKit.url response)); simpl.
    + unfold validated. destruct (UploadMediaOutputSchema w _); discriminate.
    + destruct c; discriminate.
Qed.

(** X4.  What either copy writes to the console: nothing when the response has a
    URL; the rejection itself, with all it carries, when the call rejects; and
    for a response without a URL first the whole response, then the flow's own
    error. *)
Theorem upload_console_writes (c : Copy) (w : World) (input : UploadMediaInput) :
  console_writes (events (uploadMedia_of c input) w) =
  match service_answer c input w with
  | inl e => [EvConsoleError "ImageKit upload failed:" (LogThrown (Rejected e))]
  | inr response =>
      if truthy (ImageKit.url response) then []
      else [EvConsoleError "ImageKit full response on failure:" (LogResponse response);
            EvConsoleError "ImageKit upload failed:"
              (LogThrown (JsError "ImageKit response did not include a URL."))]
  end.
Proof.
  unfold events. rewrite uploadMedia_of_run. cbv zeta.
  destruct (service_answer c input w) as [e | response]; [reflexivity |].
  destruct (truthy (ImageKit.url response)); reflexivity.
Qed.

(** X5.  Whatever either copy returns passed the output schema: [mediaUrl] is a
    non-empty string the URL check accepts, and [thumbnailUrl] is absent or
    accepted by the URL check. *)
Theorem returned_urls_are_valid
    (c : Copy) (w : World) (input : UploadMediaInput) (r : UploadMediaOutput) :
  outcome (uploadMedia_of c input) w = Returned r ->
  (exists u, UploadMedia.mediaUrl r = Some u /\ u <> "" /\ is_url w u = true)
  /\ (forall t, UploadMedia.thumbnailUrl r = Some t -> is_url w t = true).
Proof.
  unfold outcome. intros Hr.
  destruct (uploadMedia_of c input w) as [l o] eqn:Hrun. simpl in Hr. subst o.
  destruct (uploadMedia_of_returned _ _ _ _ _ Hrun)
    as (response & _ & Htruthy & Hurl & _ & Hschema & _).
  unfold UploadMediaOutputSchema in Hschema.
  apply andb_prop in Hschema. destruct Hschema as [Hmedia Hthumb].
  rewrite <- Hurl in Htruthy.
  destruct (UploadMedia.mediaUrl r) as [u |]; [| discriminate]. split.
  - exists u. repeat split; [| exact Hmedia].
    intros ->. discriminate Htruthy.
  - intros t Ht. rewrite Ht in Hthumb. exact Hthumb.
Qed.

Lemma returned_urls_are_valid_witness :
  exists u, Some "https://cdn.example/x.mp4" = Some u /\ u <> "" /\ url_like u = true.
Proof.
  apply (returned_urls_are_valid unnamed
           (world_of (fun _ => inr mp4_response) color_found) video_upload
           {| UploadMedia.mediaUrl := Some "https://cdn.example/x.mp4";
              UploadMedia.thumbnailUrl := Some "https://cdn.example/x.jpg" |}).
  reflexivity.
Defined.

(** X6.  A response whose URL is non-empty but rejected by the URL check fails the
    output schema of the flow.  That failure happens after the handler, outside
    its [try]: the run throws genkit's schema error, not an error of the
    [catch], and writes nothing to the console. *)
Theorem invalid_url_is_a_schema_error
    (c : Copy) (w : World) (input : UploadMediaInput)
    (response : ImageKit.UploadResponse) (u : string) :
  service_answer c input w = inr response ->
  ImageKit.url response = Some u ->
  u <> "" ->
  is_url w u = false ->
  outcome (uploadMedia_of c input) w =
    Threw (SchemaViolation "uploadMediaFlow" (schema_message w "uploadMediaFlow"))
  /\ console_writes (events (uploadMedia_of c input) w) = [].
Proof.
  intros Hanswer Hurl Hne Hcheck.
  assert (Htruthy : truthy (ImageKit.url response) = true).
  { rewrite Hurl. simpl. destruct (String.eqb_spec u ""); [contradiction | reflexivity]. }
  unfold outcome, events. rewrite uploadMedia_of_run. cbv zeta.
  rewrite Hanswer, Htruthy. simpl.
  unfold validated, UploadMediaOutputSchema. simpl. rewrite Hurl, Hcheck. simpl.
  split; reflexivity.
Qed.

Lemma invalid_url_is_a_schema_error_witness :
  outcome (Named.uploadMedia image_upload)
          (world_of (fun _ => inr {| ImageKit.url := Some "ftp";
                                     ImageKit.thumbnailUrl := None;
                                     ImageKit.metadata := None;
                                     ImageKit.other := "fileId=5" |})
                    color_found)
  = Threw (SchemaViolation "uploadMediaFlow" "Schema validation failed: uploadMediaFlow").
Proof.
  apply (invalid_url_is_a_schema_error named
           (world_of (fun _ => inr {| ImageKit.url := Some "ftp";
                                      ImageKit.thumbnailUrl := None;
                                      ImageKit.metadata := None;
                                      ImageKit.other := "fileId=5" |})
                     color_found)
           image_upload
           {| ImageKit.url := Some "ftp";
              ImageKit.thumbnailUrl := None;
              ImageKit.metadata := None;
              ImageKit.other := "fileId=5" |}
           "ftp");
    [reflexivity | reflexivity | discriminate | reflexivity].
Defined.

(** X7.  An empty [thumbnailUrl] in the response, with no thumbnail in the metadata:
    the named copy's [||] turns it into an absent field and the run returns;
    the unnamed copy passes the empty string on, and the run fails the output
    schema whenever the URL check rejects the empty string. *)
Theorem empty_thumbnail_splits_the_copies
    (w : World) (input : UploadMediaInput)
    (response : ImageKit.UploadResponse) (u : string) :
  service_answer named input w = inr response ->
  service_answer unnamed input w = inr response ->
  ImageKit.url response = Some u ->
  u <> "" ->
  is_url w u = true ->
  ImageKit.thumbnailUrl response = Some "" ->
  ImageKit.metadata response = None ->
  is_url w "" = false ->
  outcome (Named.uploadMedia input) w =
    Returned {| UploadMedia.mediaUrl := Some u; UploadMedia.thumbnailUrl := None |}
  /\ outcome (Unnamed.uploadMedia input) w =
    Threw (SchemaViolation "uploadMediaFlow" (schema_message w "uploadMediaFlow")).
Proof.
  intros Hn Hu Hurl Hne Hcheck Hthumb Hmeta Hempty.
  assert (Htruthy : truthy (ImageKit.url response) = true).
  { rewrite Hurl. simpl. destruct (String.eqb_spec u ""); [contradiction | reflexivity]. }
  pose proof (uploadMedia_of_run named input w) as Rn.
  pose proof (uploadMedia_of_run unnamed input w) as Ru.
  cbv zeta in Rn, Ru. simpl uploadMedia_of in Rn, Ru.
  unfold outcome. rewrite Rn, Ru, Hn, Hu, Htruthy. simpl.
  unfold validated, UploadMediaOutputSchema, js_or, ImageKit.metadata_thumbnailUrl. simpl.
  rewrite Hurl, Hthumb, Hmeta, Hcheck. simpl. rewrite Hempty. simpl.
  split; reflexivity.
Qed.

Lemma empty_thumbnail_splits_the_copies_witness :
  outcome (Named.uploadMedia image_upload)
          (world_of (fun _ => inr {| ImageKit.url := Some "https://cdn.example/x.png";
                                     ImageKit.thumbnailUrl := Some "";
                                     ImageKit.metadata := None;
                                     ImageKit.other := "fileId=6" |})
                    color_found)
  = Returned {| UploadMedia.mediaUrl := Some "https://cdn.example/x.png";
                UploadMedia.thumbnailUrl := None |}.
Proof.
  apply (empty_thumbnail_splits_the_copies
           (world_of (fun _ => inr {| ImageKit.url := Some "https://cdn.example/x.png";
                                      ImageKit.thumbnailUrl := Some "";
                                      ImageKit.metadata := None;
                                      ImageKit.other := "fileId=6" |})
                     color_found)
           image_upload
           {| ImageKit.url := Some "https://cdn.example/x.png";
              ImageKit.thumbnailUrl := Some "";
              ImageKit.metadata := None;
              ImageKit.other := "fileId=6" |}
           "https://cdn.example/x.png");
    try reflexivity; discriminate.
Defined.

(** ** The orchestrator as linked *)

(** What the named upload flow throws is never a rejection as it came. *)
Lemma upload_error_shape (w : World) (input : UploadMediaInput) :
  match snd (Named.uploadMedia input w) with
  | Threw (Rejected _) => False
  | _ => True
  end.
Proof.
  pose proof (uploadMedia_of_run named input w) as Hrun. cbv zeta in Hrun.
  simpl uploadMedia_of in Hrun. rewrite Hrun.
  destruct (service_answer named input w) as [e | response]; simpl; [exact I |].
  destruct (truthy (ImageKit.url response)); simpl; [| exact I].
  unfold validated. destruct (UploadMediaOutputSchema w _); exact I.
Qed.

(** The output schema of the orchestrator never rejects what the handler
    assembles from a result of the named upload flow. *)
Lemma linked_result_is_valid (w : World) (input : UploadMediaInput)
    (l : list Event) (r : UploadMediaOutput) (color : option string) :
  Named.uploadMedia input w = (l, Returned r) ->
  truthy (UploadMedia.mediaUrl r) = true /\
  validated_result w {| Process.mediaUrl := UploadMedia.mediaUrl r;
                        Process.thumbnailUrl := UploadMedia.thumbnailUrl r;
                        Process.dominantColor := color |}
  = Returned {| Process.mediaUrl := UploadMedia.mediaUrl r;
                Process.thumbnailUrl := UploadMedia.thumbnailUrl r;
                Process.dominantColor := color |}.
Proof.
  intros Hrun.
  destruct (uploadMedia_of_returned named _ _ _ _ Hrun)
    as (response & _ & Htruthy & Hurl & _ & Hschema & _).
  split; [rewrite Hurl; exact Htruthy |].
  unfold validated_result, Process.ProcessMediaOutputSchema. simpl.
  unfold UploadMediaOutputSchema in Hschema. rewrite Hschema. reflexivity.
Qed.

(** X8.  The orchestrator fails exactly when the upload fails, and then with the
    upload's error: neither its own guard, nor its output schema, nor the color
    step adds a way to fail. *)
Theorem orchestrator_fails_iff_upload_fails
    (w : World) (input : Process.ProcessMediaInput) (e : Thrown) :
  outcome (processAndUploadMedia input) w = Threw e
  <-> outcome (Named.uploadMedia (Process.uploadInput input)) w = Threw e.
Proof.
  unfold outcome. rewrite linked_run.
  destruct (Named.uploadMedia (Process.uploadInput input) w) as [l [r | e']] eqn:Hrun;
    [| simpl; split; intros H; injection H as ->; reflexivity].
  destruct (linked_result_is_valid w _ l r (snd (color_step input w)) Hrun) as [Htruthy Hvalid].
  rewrite Htruthy, Hvalid. simpl. split; discriminate.
Qed.

(** X9.  The orchestrator never throws a rejection of a service as it is: the
    upload's is replaced by the upload flow, the color model's is absorbed. *)
Theorem orchestrator_never_throws_rejection
    (w : World) (input : Process.ProcessMediaInput) (e : ServiceError) :
  outcome (processAndUploadMedia input) w <> Threw (Rejected e).
Proof.
  intros H.
  unfold outcome in H. rewrite linked_run in H.
  pose proof (upload_error_shape w (Process.uploadInput input)) as Hshape.
  destruct (Named.uploadMedia (Process.uploadInput input) w) as [l [r | e']] eqn:Hrun.
  - destruct (linked_result_is_valid w _ l r (snd (color_step input w)) Hrun)
      as [Htruthy Hvalid].
    rewrite Htruthy, Hvalid in H. discriminate H.
  - simpl in H. injection H as ->. simpl in Hshape. exact Hshape.
Qed.

(** X10.  For an image whose upload succeeds and whose color prompt resolves, the
    result carries the prompt's color, or no color when the prompt resolved
    without an output; nothing is written to the console. *)
Theorem color_is_taken_from_the_prompt
    (w : World) (input : Process.ProcessMediaInput)
    (uploadResult : UploadMediaOutput) (colorResult : ColorExtract.Result) :
  Process.mediaType input = Process.image ->
  outcome (Named.uploadMedia (Process.uploadInput input)) w = Returned uploadResult ->
  colorExtractPrompt_answer w
    {| ColorExtract.photoDataUri := Process.mediaDataUri input |} = inr colorResult ->
  outcome (processAndUploadMedia input) w =
    Returned {| Process.mediaUrl := UploadMedia.mediaUrl uploadResult;
                Process.thumbnailUrl := UploadMedia.thumbnailUrl uploadResult;
                Process.dominantColor :=
                  match ColorExtract.output colorResult with
                  | Some o => Some (ColorExtract.dominantColor o)
                  | None => None
                  end |}
  /\ console_writes (events (processAndUploadMedia input) w) = [].
Proof.
  intros Himage Hupload Hcolor.
  unfold outcome, events in *. rewrite linked_run.
  destruct (Named.uploadMedia (Process.uploadInput input) w) as [l o] eqn:Hrun.
  simpl in Hupload. subst o.
  assert (Hstep : color_step input w
                  = ([EvColorExtract {| ColorExtract.photoDataUri := Process.mediaDataUri input |}],
                     ColorExtract.output_dominantColor colorResult))
    by (unfold color_step; rewrite Himage, Hcolor; reflexivity).
  destruct (linked_result_is_valid w _ l uploadResult (snd (color_step input w)) Hrun)
    as [Htruthy Hvalid].
  rewrite Htruthy, Hvalid, Hstep. simpl. split; [reflexivity |].
  destruct (uploadMedia_of_returned named _ _ _ _ Hrun) as (response & _ & _ & _ & _ & _ & ->).
  reflexivity.
Qed.

Lemma color_is_taken_from_the_prompt_witness :
  outcome (processAndUploadMedia image_request) (world_of (fun _ => inr png_response) color_found)
  = Returned {| Process.mediaUrl := Some "https://cdn.example/x.png";
                Process.thumbnailUrl := None;
                Process.dominantColor := Some "#1A2B3C" |}.
Proof.
  apply (color_is_taken_from_the_prompt
           (world_of (fun _ => inr png_response) color_found) image_request
           {| UploadMedia.mediaUrl := Some "https://cdn.example/x.png";
              UploadMedia.thumbnailUrl := None |}
           {| ColorExtract.output := Some {| ColorExtract.dominantColor := "#1A2B3C" |} |});
    reflexivity.
Defined.

(** X11.  The color model is called exactly when the input is an image and the
    upload returned, and then once, with the data URI that was uploaded; when
    the upload fails the run stops before the color step. *)
Theorem color_call_iff_image_uploaded (w : World) (input : Process.ProcessMediaInput) :
  color_calls (events (processAndUploadMedia input) w) =
  match Process.mediaType input,
        outcome (Named.uploadMedia (Process.uploadInput input)) w with
  | Process.image, Returned _ =>
      [{| ColorExtract.photoDataUri := Process.mediaDataUri input |}]
  | _, _ => []
  end.
Proof.
  unfold events, outcome. rewrite linked_run.
  pose proof (uploadMedia_of_color_calls named (Process.uploadInput input) w) as Hnone.
  simpl uploadMedia_of in Hnone.
  destruct (Named.uploadMedia (Process.uploadInput input) w) as [l [r | e]] eqn:Hrun;
    simpl in *.
  - destruct (linked_result_is_valid w _ l r None Hrun) as [-> _]. simpl.
    rewrite color_calls_app, Hnone. unfold color_step.
    destruct (Process.mediaType input); [| reflexivity].
    destruct (colorExtractPrompt_answer w _); reflexivity.
  - rewrite Hnone. destruct (Process.mediaType input); reflexivity.
Qed.

(** X12.  Every run of the orchestrator starts with the one upload call it makes:
    the file is the input's data URI, and the thumbnail transformation of the
    named flow is attached for a video and left out for an image. *)
Theorem orchestrator_upload_call (w : World) (input : Process.ProcessMediaInput) :
  exists o,
    hd_error (events (processAndUploadMedia input) w) = Some (EvUpload imagekit o) /\
    upload_calls (events (processAndUploadMedia input) w) = [o] /\
    ImageKit.file o = Process.mediaDataUri input /\
    ImageKit.transformation o =
      match Process.mediaType input with
      | Process.video =>
          Some (ImageKit.Steps
                  [ {| ImageKit.name := "Video Thumbnail";
                       ImageKit.options :=
                         {| ImageKit.format := "jpg"; ImageKit.quality := 80 |} |} ])
      | Process.image => None
      end.
Proof.
  exists (Named.uploadOptions (Process.uploadInput input) (Date_now w)).
  destruct (uploadMedia_of_events named w (Process.uploadInput input))
    as (rest & Hev & Hcalls & _).
  simpl uploadMedia_of in Hev. simpl uploadOptions_of in Hev.
  assert (Hevents : exists more,
             fst (processAndUploadMedia input w)
             = (EvUpload imagekit (Named.uploadOptions (Process.uploadInput input) (Date_now w))
                  :: rest ++ more)%list
             /\ upload_calls more = []).
  { rewrite linked_run.
    destruct (Named.uploadMedia (Process.uploadInput input) w) as [l [r | e]];
      simpl in Hev; subst l.
    - destruct (truthy (UploadMedia.mediaUrl r)); simpl.
      + exists (fst (color_step input w)). split; [reflexivity |].
        apply color_step_upload_calls.
      + exists []. rewrite app_nil_r. split; reflexivity.
    - exists []. rewrite app_nil_r. split; reflexivity. }
  destruct Hevents as (more & Hevents & Hmore).
  unfold events. rewrite Hevents. simpl.
  rewrite upload_calls_app, Hcalls, Hmore.
  split; [reflexivity | split; [reflexivity |]].
  unfold Named.uploadOptions, Process.uploadInput. simpl.
  destruct (Process.mediaType input); split; reflexivity.
Qed.

(** X13.  What the orchestrator writes to the console: what the upload wrote, and
    after it one warning, carrying the rejection, exactly when the input is an
    image, the upload returned and the color model rejected. *)
Theorem orchestrator_console_writes (w : World) (input : Process.ProcessMediaInput) :
  console_writes (events (processAndUploadMedia input) w) =
  (console_writes (events (Named.uploadMedia (Process.uploadInput input)) w)
   ++ match Process.mediaType input,
            outcome (Named.uploadMedia (Process.uploadInput input)) w,
            colorExtractPrompt_answer w
              {| ColorExtract.photoDataUri := Process.mediaDataUri input |} with
      | Process.image, Returned _, inl e =>
          [EvConsoleWarn "Could not extract dominant color, will proceed without it."
                         (LogThrown (Rejected e))]
      | _, _, _ => []
      end)%list.
Proof.
  unfold events, outcome. rewrite linked_run.
  destruct (Named.uploadMedia (Process.uploadInput input) w) as [l [r | e]] eqn:Hrun; simpl.
  - destruct (linked_result_is_valid w _ l r None Hrun) as [-> _]. simpl.
    rewrite console_writes_app. f_equal. unfold color_step.
    destruct (Process.mediaType input); [| reflexivity].
    destruct (colorExtractPrompt_answer w _); reflexivity.
  - destruct (Process.mediaType input); rewrite app_nil_r; reflexivity.
Qed.

(** X14.  Whatever [uploadMedia] is linked, a result of the orchestrator has a
    non-empty [mediaUrl] that the URL check accepts and a [thumbnailUrl] that
    is absent or accepted: the guard and the output schema let nothing else
    through. *)
Theorem orchestrator_result_is_valid
    (uploadMedia : UploadMediaInput -> M (option UploadMediaOutput))
    (w : World) (input : Process.ProcessMediaInput) (out : Process.ProcessMediaOutput) :
  outcome (Process.processAndUploadMedia uploadMedia input) w = Returned out ->
  (exists u, Process.mediaUrl out = Some u /\ u <> "" /\ is_url w u = true)
  /\ (forall t, Process.thumbnailUrl out = Some t -> is_url w t = true).
Proof.
  unfold outcome. rewrite processAndUploadMedia_run.
  destruct (uploadMedia (Process.uploadInput input) w) as [l [[r |] | e]];
    simpl; try discriminate.
  destruct (truthy (UploadMedia.mediaUrl r)) eqn:Htruthy; simpl; [| discriminate].
  unfold validated_result.
  destruct (Process.ProcessMediaOutputSchema w _) eqn:Hschema; [| discriminate].
  intros H. injection H as <-.
  unfold Process.ProcessMediaOutputSchema in Hschema. simpl in *.
  apply andb_prop in Hschema. destruct Hschema as [Hmedia Hthumb].
  destruct (UploadMedia.mediaUrl r) as [u |]; [| discriminate]. split.
  - exists u. repeat split; [| exact Hmedia].
    intros ->. discriminate Htruthy.
  - intros t Ht. rewrite Ht in Hthumb. exact Hthumb.
Qed.

Lemma orchestrator_result_is_valid_witness :
  exists u, Some "https://cdn.example/x.mp4" = Some u /\ u <> "" /\ url_like u = true.
Proof.
  apply (orchestrator_result_is_valid (Process.resolved Unnamed.uploadMedia)
           (world_of (fun _ => inr mp4_response) color_found) video_request
           {| Process.mediaUrl := Some "https://cdn.example/x.mp4";
              Process.thumbnailUrl := Some "https://cdn.example/x.jpg";
              Process.dominantColor := None |}).
  reflexivity.
Defined.
